(** * smithay: the xdg shell module's documentation sidebar

    The file [src/smithay/wayland/shell/xdg/sidebar-items.js] is one
    JavaScript statement: a call of the host function [initSidebarItems] on an
    object literal that groups the module's public symbols by kind
    ([constant], [enum], [fn], [struct]); every symbol is a two element array
    holding its name and its one-line description.

    The development has four parts:
    - [Js]: the fragment of JavaScript syntax and evaluation the file needs;
    - [Sidebar]: the file itself, the mapping it passes to the host, and the
      queries on that mapping;
    - [Shell]: the configure/acknowledge machine of a shell surface, which
      the file only names and which is written after the specification;
    - [Dispatch]: the shell state and the delivery of its events to the
      registered handler, written after the specification as well. *)

From Stdlib Require Import String Ascii List Bool Arith NArith ZArith Lia Sorted.
Import ListNotations.

Set Warnings "-register-all".

Open Scope string_scope.
Open Scope list_scope.

(** ** A fragment of JavaScript *)

Module Js.

(** Expressions: string literals, identifiers, array and object literals,
    calls.  Statements carry the control constructs of the language, so that
    their absence from a program is a property and not an accident of the
    syntax. *)
Inductive expr : Type :=
| Str (s : string)
| Ident (x : string)
| Arr (elems : list expr)
| Obj (props : list (string * expr))
| Call (callee : expr) (args : list expr).

Inductive stmt : Type :=
| ExprStmt (e : expr)
| VarDecl (x : string) (init : expr)
| If (cond : expr) (thn els : list stmt)
| While (cond : expr) (body : list stmt)
| Return (e : expr)
| FunDecl (f : string) (params : list string) (body : list stmt).

Definition program : Type := list stmt.

(** A static literal: built from strings, arrays and objects only. *)
Fixpoint literal (e : expr) : bool :=
  match e with
  | Str _ => true
  | Ident _ => false
  | Arr elems => forallb literal elems
  | Obj props => forallb (fun p => literal (snd p)) props
  | Call _ _ => false
  end.

(** Statements that branch, loop, return or declare. *)
Definition control_flow (s : stmt) : bool :=
  match s with
  | ExprStmt _ => false
  | VarDecl _ _ => false
  | If _ _ _ => true
  | While _ _ => true
  | Return _ => true
  | FunDecl _ _ _ => true
  end.

(** Values.  A JavaScript object keeps its properties in insertion order;
    writing a key that is present replaces its value in place.  This is the
    behaviour of keys that are neither integer-like (which an engine lists
    first, in numeric order) nor [__proto__] (which in a literal sets the
    prototype): the keys of the file are of that kind. *)
Inductive value : Type :=
| VStr (s : string)
| VArr (elems : list value)
| VObj (props : list (string * value))
| VUndefined.

Fixpoint obj_set (k : string) (v : value) (props : list (string * value))
  : list (string * value) :=
  match props with
  | [] => [(k, v)]
  | (k', v') :: rest =>
      if String.eqb k k' then (k, v) :: rest else (k', v') :: obj_set k v rest
  end.

Inductive error : Type :=
| ReferenceError (x : string)
| Unsupported.

Inductive outcome (A : Type) : Type :=
| Done (a : A)
| Throw (err : error).
Arguments Done {A} a.
Arguments Throw {A} err.

Definition bind {A B : Type} (m : outcome A) (k : A -> outcome B) : outcome B :=
  match m with
  | Done a => k a
  | Throw err => Throw err
  end.

Notation "x <- m ;; k" := (bind m (fun x => k))
  (at level 61, m at next level, right associativity).

(** The host is the page that loads the script: it says which global names
    are functions.  A call of a host function is recorded, with the values
    of its arguments, in the trace of the run. *)
Definition host : Type := string -> bool.
Definition trace : Type := list (string * list value).

(** The value of a literal. *)
Fixpoint value_of (e : expr) : value :=
  match e with
  | Str s => VStr s
  | Arr elems => VArr (map value_of elems)
  | Obj props =>
      VObj (fold_left (fun acc p => obj_set (fst p) (value_of (snd p)) acc)
                      props [])
  | Ident _ => VUndefined
  | Call _ _ => VUndefined
  end.

(** Evaluation of the parts of an array, of an argument list and of an
    object, left to right, given the evaluation of one expression. *)
Section Parts.
Variable ev : expr -> trace -> outcome (value * trace).

Fixpoint eval_elements (es : list expr) (t : trace)
  : outcome (list value * trace) :=
  match es with
  | [] => Done ([], t)
  | e :: es' =>
      r1 <- ev e t ;;
      r2 <- eval_elements es' (snd r1) ;;
      Done (fst r1 :: fst r2, snd r2)
  end.

Fixpoint eval_properties (ps : list (string * expr))
  (acc : list (string * value)) (t : trace)
  : outcome (list (string * value) * trace) :=
  match ps with
  | [] => Done (acc, t)
  | p :: ps' =>
      r1 <- ev (snd p) t ;;
      eval_properties ps' (obj_set (fst p) (fst r1) acc) (snd r1)
  end.
End Parts.

Section Eval.
Variable h : host.

Fixpoint eval (e : expr) (t : trace) : outcome (value * trace) :=
  match e with
  | Str s => Done (VStr s, t)
  | Ident x => if h x then Throw Unsupported else Throw (ReferenceError x)
  | Arr elems =>
      r <- eval_elements eval elems t ;;
      Done (VArr (fst r), snd r)
  | Obj props =>
      r <- eval_properties eval props [] t ;;
      Done (VObj (fst r), snd r)
  | Call (Ident f) args =>
      if h f then
        r <- eval_elements eval args t ;;
        Done (VUndefined, snd r ++ [(f, fst r)])
      else Throw (ReferenceError f)
  | Call _ _ => Throw Unsupported
  end.

(** Straight-line programs run statement by statement; the constructs the
    file does not use are outside the fragment. *)
Definition exec (s : stmt) (t : trace) : outcome trace :=
  match s with
  | ExprStmt e => r <- eval e t ;; Done (snd r)
  | _ => Throw Unsupported
  end.

Fixpoint run (p : program) (t : trace) : outcome trace :=
  match p with
  | [] => Done t
  | s :: p' => t' <- exec s t ;; run p' t'
  end.
End Eval.

(** An induction principle for expressions that reaches the parts of arrays,
    objects and calls. *)
Section ExprInduction.
Variable P : expr -> Prop.
Hypothesis HStr : forall s, P (Str s).
Hypothesis HIdent : forall x, P (Ident x).
Hypothesis HArr : forall elems, Forall P elems -> P (Arr elems).
Hypothesis HObj : forall props, Forall (fun p => P (snd p)) props -> P (Obj props).
Hypothesis HCall :
  forall callee args, P callee -> Forall P args -> P (Call callee args).

Fixpoint expr_parts_ind (e : expr) : P e :=
  match e with
  | Str s => HStr s
  | Ident x => HIdent x
  | Arr elems =>
      HArr elems
        ((fix parts (es : list expr) : Forall P es :=
            match es with
            | [] => Forall_nil P
            | e' :: es' => Forall_cons e' (expr_parts_ind e') (parts es')
            end) elems)
  | Obj props =>
      HObj props
        ((fix parts (ps : list (string * expr))
            : Forall (fun p => P (snd p)) ps :=
            match ps with
            | [] => Forall_nil _
            | p :: ps' => Forall_cons p (expr_parts_ind (snd p)) (parts ps')
            end) props)
  | Call callee args =>
      HCall callee args (expr_parts_ind callee)
        ((fix parts (es : list expr) : Forall P es :=
            match es with
            | [] => Forall_nil P
            | e' :: es' => Forall_cons e' (expr_parts_ind e') (parts es')
            end) args)
  end.
End ExprInduction.

End Js.

(** ** The sidebar file *)

Module Sidebar.
Import Js.

(** [sidebar-items.js], the whole file. *)
Definition sidebar_items_js : program :=
  [ExprStmt (Call (Ident "initSidebarItems")
     [Obj
        [("constant",
          Arr
            [Arr [Str "XDG_POPUP_ROLE";
                  Str "The role of an XDG popup surface."];
             Arr [Str "XDG_TOPLEVEL_ROLE";
                  Str "The role of an XDG toplevel surface."];
             Arr [Str "ZXDG_POPUP_ROLE";
                  Str "The role of an ZXDG popup surface."];
             Arr [Str "ZXDG_TOPLEVEL_ROLE";
                  Str "The role of an ZXDG toplevel surface."]]);
         ("enum",
          Arr
            [Arr [Str "Configure";
                  Str "Defines the possible configure variants for a XdgSurface that will be issued in the user_impl for notifying about a ack_configure"];
             Arr [Str "PopupConfigureError";
                  Str "Represents the possible errors that can be returned from [`PopupSurface::send_configure`]"];
             Arr [Str "XdgRequest";
                  Str "Events generated by xdg shell surfaces"]]);
         ("fn",
          Arr
            [Arr [Str "xdg_shell_init";
                  Str "Create a new `xdg_shell` global"]]);
         ("struct",
          Arr
            [Arr [Str "PopupConfigure";
                  Str "A configure message for popup surface"];
             Arr [Str "PopupState";
                  Str "Represents the state of the popup"];
             Arr [Str "PopupSurface";
                  Str "A handle to a popup surface"];
             Arr [Str "PositionerState";
                  Str "The state of a positioner, as set by the client"];
             Arr [Str "ShellClient";
                  Str "A shell client"];
             Arr [Str "ShellState";
                  Str "Shell global state"];
             Arr [Str "SurfaceCachedState";
                  Str "Represents the client pending state"];
             Arr [Str "ToplevelConfigure";
                  Str "A configure message for toplevel surfaces"];
             Arr [Str "ToplevelState";
                  Str "State of a regular toplevel surface"];
             Arr [Str "ToplevelStateSet";
                  Str "Container holding the states for a `XdgToplevel`"];
             Arr [Str "ToplevelSurface";
                  Str "A handle to a toplevel surface"];
             Arr [Str "XdgPopupSurfaceRoleAttributes";
                  Str "Role specific attributes for xdg_popup"];
             Arr [Str "XdgToplevelSurfaceRoleAttributes";
                  Str "Role specific attributes for xdg_toplevel"]])]])].

(** The page that loads the file defines [initSidebarItems] and nothing
    else the file refers to. *)
Definition rustdoc_page : host := fun x => String.eqb x "initSidebarItems".

(** *** Concrete syntax

    The printer writes a program the way the file is written: no white
    space, double quotes around strings, a semicolon after the statement. *)
Definition quote : string := String (ascii_of_nat 34) EmptyString.

Fixpoint sep_by (sep : string) (parts : list string) : string :=
  match parts with
  | [] => ""
  | [p] => p
  | p :: rest => (p ++ sep ++ sep_by sep rest)%string
  end.

Fixpoint print_expr (e : expr) : string :=
  match e with
  | Str s => (quote ++ s ++ quote)%string
  | Ident x => x
  | Arr elems => ("[" ++ sep_by "," (map print_expr elems) ++ "]")%string
  | Obj props =>
      ("{" ++ sep_by ","
                (map (fun p =>
                        quote ++ fst p ++ quote ++ ":" ++ print_expr (snd p))
                     props) ++ "}")%string
  | Call callee args =>
      (print_expr callee ++ "(" ++ sep_by "," (map print_expr args) ++ ")")%string
  end.

Definition print_stmt (s : stmt) : string :=
  match s with
  | ExprStmt e => (print_expr e ++ ";")%string
  | _ => ""
  end.

Definition print_program (p : program) : string :=
  String.concat "" (map print_stmt p).

(** *** The mapping handed to the host

    An item is a pair of a symbol name and its description; the mapping
    sends a category to its items, in the order of the file. *)
Definition item : Type := (string * string)%type.
Definition mapping : Type := list (string * list item).

Fixpoint traverse {A B : Type} (f : A -> option B) (l : list A)
  : option (list B) :=
  match l with
  | [] => Some []
  | a :: l' =>
      match f a, traverse f l' with
      | Some b, Some bs => Some (b :: bs)
      | _, _ => None
      end
  end.

Definition as_item (v : value) : option item :=
  match v with
  | VArr [VStr name; VStr description] => Some (name, description)
  | _ => None
  end.

Definition as_items (v : value) : option (list item) :=
  match v with
  | VArr elems => traverse as_item elems
  | _ => None
  end.

Definition as_mapping (v : value) : option mapping :=
  match v with
  | VObj props =>
      traverse (fun p => option_map (pair (fst p)) (as_items (snd p))) props
  | _ => None
  end.

(** What the host receives when the page runs the file: the arguments of
    the calls of [initSidebarItems]. *)
Definition received (t : trace) : list (list value) :=
  map snd (filter (fun c => String.eqb (fst c) "initSidebarItems") t).

Definition sidebar : mapping :=
  Eval vm_compute in
    match run rustdoc_page sidebar_items_js [] with
    | Done t =>
        match received t with
        | [[v]] => match as_mapping v with Some m => m | None => [] end
        | _ => []
        end
    | Throw _ => []
    end.

(** *** Queries *)

Fixpoint assoc {A : Type} (k : string) (l : list (string * A)) : option A :=
  match l with
  | [] => None
  | (k', a) :: l' => if String.eqb k k' then Some a else assoc k l'
  end.

Definition categories : list string := map fst sidebar.

Definition category (c : string) : list item :=
  match assoc c sidebar with
  | Some items => items
  | None => []
  end.

Definition names (c : string) : list string := map fst (category c).

Definition symbols : list item := flat_map snd sidebar.

Definition symbol_names : list string := map fst symbols.

Definition describe (name : string) : option string := assoc name symbols.

(** The categories that list a name. *)
Definition kinds (name : string) : list string :=
  map fst (filter (fun c => existsb (String.eqb name) (map fst (snd c))) sidebar).

(** [mentions d w]: the text [w] occurs in the description [d]. *)
Definition mentions (d w : string) : bool :=
  match String.index 0 w d with
  | Some _ => true
  | None => false
  end.


Definition newline : ascii := ascii_of_nat 10.

Fixpoint one_line (d : string) : bool :=
  match d with
  | EmptyString => true
  | String c d' => negb (Ascii.eqb c newline) && one_line d'
  end.

(** *** Role constants

    A role constant is named after the protocol generation it belongs to
    (the [ZXDG_] prefix of the unstable protocol, the [XDG_] prefix of the
    stable one) and after the role it tags. *)
Inductive generation : Type := Legacy | Current.
Inductive role_kind : Type := ToplevelRole | PopupRole.

Definition generation_of (name : string) : option generation :=
  if String.prefix "ZXDG_" name then Some Legacy
  else if String.prefix "XDG_" name then Some Current
  else None.

Definition role_kind_of (name : string) : option role_kind :=
  if mentions name "_TOPLEVEL_ROLE" then Some ToplevelRole
  else if mentions name "_POPUP_ROLE" then Some PopupRole
  else None.

(** Deciding [NoDup] on strings by computation. *)
Fixpoint distinct (l : list string) : bool :=
  match l with
  | [] => true
  | x :: l' => negb (existsb (String.eqb x) l') && distinct l'
  end.

(** The names of the types of the data model of the specification. *)
Definition data_model_types : list string :=
  ["ShellClient"; "ToplevelSurface"; "PopupSurface"; "ToplevelState";
   "ToplevelStateSet"; "PopupState"; "PositionerState"; "SurfaceCachedState";
   "Configure"; "ToplevelConfigure"; "PopupConfigure";
   "XdgToplevelSurfaceRoleAttributes"; "XdgPopupSurfaceRoleAttributes"].

(** The four role constants. *)
Definition role_constants : list string :=
  ["XDG_TOPLEVEL_ROLE"; "ZXDG_TOPLEVEL_ROLE"; "XDG_POPUP_ROLE"; "ZXDG_POPUP_ROLE"].

(** *** Rendering a mapping

    The shape of the file: an object whose properties are the categories,
    each an array of two element arrays of strings. *)
Definition encode_item (i : item) : expr := Arr [Str (fst i); Str (snd i)].

Definition encode_items (l : list item) : expr := Arr (map encode_item l).

Definition encode (m : mapping) : expr :=
  Obj (map (fun c => (fst c, encode_items (snd c))) m).


(** *** Order and characters *)

(** [before a b]: [a] comes strictly before [b], comparing character codes. *)
Definition before (a b : string) : Prop := String.ltb a b = true.

Definition code_between (lo hi : nat) (c : ascii) : bool :=
  (lo <=? nat_of_ascii c)%nat && (nat_of_ascii c <=? hi)%nat.

Definition is_digit (c : ascii) : bool := code_between 48 57 c.

(** Letters, digits and the underscore. *)
Definition identifier_char (c : ascii) : bool :=
  code_between 65 90 c || code_between 97 122 c || is_digit c
  || (nat_of_ascii c =? 95)%nat.

Fixpoint all_chars (f : ascii -> bool) (s : string) : bool :=
  match s with
  | EmptyString => true
  | String c s' => f c && all_chars f s'
  end.

(** A non-empty word of identifier characters that does not start with a
    digit. *)
Definition identifier (s : string) : bool :=
  match s with
  | EmptyString => false
  | String c _ => negb (is_digit c) && all_chars identifier_char s
  end.

(** Printable ASCII other than the double quote (34) and the backslash (92):
    the characters a JavaScript string literal spells as they are. *)
Definition verbatim_char (c : ascii) : bool :=
  code_between 32 126 c
  && negb (nat_of_ascii c =? 34)%nat && negb (nat_of_ascii c =? 92)%nat.

Definition verbatim (s : string) : bool :=
  negb (String.eqb s "") && all_chars verbatim_char s.


(** The description of a role constant, from its generation and role. *)
Definition role_description (g : generation) (k : role_kind) : string :=
  ("The role of an "
   ++ match g with Legacy => "ZXDG" | Current => "XDG" end
   ++ " "
   ++ match k with ToplevelRole => "toplevel" | PopupRole => "popup" end
   ++ " surface.")%string.

End Sidebar.

(** ** The configure/acknowledge machine of a surface

    The sidebar names the types of the xdg shell; the code that drives them
    is not part of the file.  This module writes the per-surface machine
    after section 4.3 of the specification: serial allocation, cumulative
    acknowledgement, the popup lifecycle and destruction. *)

Module Shell.

Local Open Scope N_scope.

(** Modelled from the spec: the state flags of a toplevel (maximized,
    fullscreen, activated, resizing). *)
Inductive ToplevelFlag : Type := Maximized | Fullscreen | Activated | Resizing.

(** Modelled from the spec: the payload of [ToplevelConfigure], the next
    size and state flags of a toplevel. *)
Record ToplevelConfigure : Type := {
  size : option (N * N);
  states : list ToplevelFlag
}.

(** Modelled from the spec: the payload of [PopupConfigure], the next
    geometry of a popup (position relative to the parent, then size). *)
Record PopupConfigure : Type := {
  position : Z * Z;
  extent : N * N
}.

(** Modelled from the spec: the next expected state a configure describes,
    of a toplevel or of a popup. *)
Inductive SurfaceState : Type :=
| OfToplevel (c : ToplevelConfigure)
| OfPopup (c : PopupConfigure).

(** Modelled from the spec: [Configure], the proposal of a surface's next
    state tagged with its serial. *)
Record Configure : Type := {
  serial : N;
  new_state : SurfaceState
}.

(** Modelled from the spec: [PopupState], the lifecycle flag of a popup. *)
Inductive PopupState : Type := Unmapped | Mapped | Dismissed.

(** Modelled from the spec: the role of a surface with its role-specific
    attributes; a popup carries its lifecycle flag. *)
Inductive Role : Type :=
| Toplevel
| Popup (state : PopupState).

(** Modelled from the spec: the states of the machine,
    [Unconfigured -> Configured(serial) -> Acknowledged(serial)], and
    [Destroyed] from any of them. *)
Inductive Phase : Type :=
| Unconfigured
| Configured (n : N)
| Acknowledged (n : N)
| Destroyed.

(** Modelled from the spec: [SurfaceCachedState], the pending and the
    current attributes of the surface. *)
Record SurfaceCachedState : Type := {
  pending : option SurfaceState;
  current : option SurfaceState
}.

(** Modelled from the spec: the commit point, where the pending attributes
    become the current ones. *)
Definition commit (c : SurfaceCachedState) : SurfaceCachedState :=
  match pending c with
  | Some st => {| pending := None; current := Some st |}
  | None => c
  end.

(** Modelled from the spec: [PositionerState], the geometry constraints a
    client supplies for a popup: anchor rectangle, gravity, constraint
    adjustment flags and offset. *)
Inductive Gravity : Type :=
| NoGravity | Top | Bottom | Left | Right
| TopLeft | BottomLeft | TopRight | BottomRight.

Inductive ConstraintAdjustment : Type :=
| FlipX | FlipY | SlideX | SlideY | ResizeX | ResizeY.

Record PositionerState : Type := {
  anchor_rect : (Z * Z) * (N * N);
  gravity : Gravity;
  constraint_adjustment : list ConstraintAdjustment;
  offset : Z * Z
}.

(** Modelled from the spec: the machine of one surface.  [latest_issued] is
    the latest serial handed out (0 before the first), [outstanding] the
    configures issued and not yet acknowledged, oldest first, [positioner]
    the positioner state stored last, and [repositioned] the serial of the
    configure issued for the latest reposition request (0 when there was
    none). *)
Record Surface : Type := {
  role : Role;
  phase : Phase;
  latest_issued : N;
  outstanding : list Configure;
  cached : SurfaceCachedState;
  positioner : option PositionerState;
  repositioned : N
}.

(** Modelled from the spec: a surface that has just been given its role,
    [Unconfigured] and with no serial issued. *)
Definition new_surface (r : Role) : Surface :=
  {| role := r;
     phase := Unconfigured;
     latest_issued := 0;
     outstanding := [];
     cached := {| pending := None; current := None |};
     positioner := None;
     repositioned := 0 |}.

(** Modelled from the spec: the errors of [ack_configure],
    [AckError::UnknownSerial] and the variants of [PopupConfigureError] (a
    popup already dismissed, an acknowledgement out of order with respect to
    reposition requests). *)
Inductive AckError : Type := UnknownSerial.
Inductive PopupConfigureError : Type := AlreadyDismissed | OutOfOrder.

Inductive Error : Type :=
| OfAck (e : AckError)
| OfPopupConfigure (e : PopupConfigureError).

Inductive Result : Type :=
| Ok
| Err (e : Error).

(** Modelled from the spec: [request_configure] allocates the next serial,
    stores it as the latest issued one, marks the surface
    [Configured(serial)] and returns the configure event. *)
Definition request_configure (st : SurfaceState) (s : Surface)
  : Configure * Surface :=
  let n := latest_issued s + 1 in
  let c := {| serial := n; new_state := st |} in
  (c, {| role := role s;
         phase := Configured n;
         latest_issued := n;
         outstanding := outstanding s ++ [c];
         cached := cached s;
         positioner := positioner s;
         repositioned := repositioned s |}).

Definition serials (s : Surface) : list N := map serial (outstanding s).

(** Modelled from the spec: the lowest currently outstanding serial, if
    there is one. *)
Definition lowest_outstanding (s : Surface) : option N :=
  match serials s with
  | [] => None
  | n :: ns => Some (fold_left N.min ns n)
  end.

Definition is_dismissed (s : Surface) : bool :=
  match role s with
  | Popup Dismissed => true
  | _ => false
  end.

Definition is_popup (s : Surface) : bool :=
  match role s with
  | Popup _ => true
  | Toplevel => false
  end.

(** Modelled from the spec: the surface once the configure [c] is
    acknowledged.  Its state is committed as the current one, the surface
    advances to [Acknowledged(serial)], and [c] and every earlier configure
    stop being outstanding. *)
Definition acknowledged (c : Configure) (s : Surface) : Surface :=
  {| role := role s;
     phase := Acknowledged (serial c);
     latest_issued := latest_issued s;
     outstanding := filter (fun c' => serial c <? serial c') (outstanding s);
     cached := commit {| pending := Some (new_state c);
                         current := current (cached s) |};
     positioner := positioner s;
     repositioned := repositioned s |}.

(** Modelled from the spec: [ack_configure].  A dismissed popup refuses the
    acknowledgement, dismissal being terminal; a destroyed surface ignores
    it; a serial below the lowest outstanding one is stale and ignored
    without error; a serial that matches an outstanding configure of a popup
    but is older than the configure of its latest reposition request is out
    of order; any other serial that matches an outstanding configure
    acknowledges it and all earlier ones; a serial that matches none is
    unknown. *)
Definition ack_configure (n : N) (s : Surface) : Result * Surface :=
  if is_dismissed s then (Err (OfPopupConfigure AlreadyDismissed), s)
  else
    match phase s with
    | Destroyed => (Ok, s)
    | _ =>
        match lowest_outstanding s with
        | None => (Err (OfAck UnknownSerial), s)
        | Some lowest =>
            if n <? lowest then (Ok, s)
            else
              match find (fun c => serial c =? n) (outstanding s) with
              | Some c =>
                  if is_popup s && (n <? repositioned s)
                  then (Err (OfPopupConfigure OutOfOrder), s)
                  else (Ok, acknowledged c s)
              | None => (Err (OfAck UnknownSerial), s)
              end
        end
    end.

(** Modelled from the spec: [dismiss], for popups only, terminal and
    idempotent. *)
Definition dismiss (s : Surface) : Surface :=
  match role s with
  | Toplevel => s
  | Popup _ =>
      {| role := Popup Dismissed;
         phase := phase s;
         latest_issued := latest_issued s;
         outstanding := outstanding s;
         cached := cached s;
         positioner := positioner s;
         repositioned := repositioned s |}
  end.

(** Modelled from the spec: [set_positioner], for popups only.  It stores
    the new positioner state and calls [request_configure] with the geometry
    recomputed for it; [geometry] is the rectangle the positioner engine
    gives for [p].  A toplevel has no positioner, and a dismissed popup
    accepts no further configure. *)
Definition set_positioner (p : PositionerState) (geometry : PopupConfigure)
  (s : Surface) : Surface * list Configure :=
  match role s with
  | Toplevel => (s, [])
  | Popup Dismissed => (s, [])
  | Popup _ =>
      let (c, s') := request_configure (OfPopup geometry) s in
      ({| role := role s';
          phase := phase s';
          latest_issued := latest_issued s';
          outstanding := outstanding s';
          cached := cached s';
          positioner := Some p;
          repositioned := repositioned s' |}, [c])
  end.

(** Modelled from the spec: a reposition request is [set_positioner] whose
    configure is remembered as the one acknowledgements are ordered
    against. *)
Definition reposition (p : PositionerState) (geometry : PopupConfigure)
  (s : Surface) : Surface * list Configure :=
  match set_positioner p geometry s with
  | (s', c :: _) =>
      ({| role := role s';
          phase := phase s';
          latest_issued := latest_issued s';
          outstanding := outstanding s';
          cached := cached s';
          positioner := positioner s';
          repositioned := serial c |}, [c])
  | (s', []) => (s', [])
  end.

(** Modelled from the spec: destroying a surface cancels its outstanding
    configures. *)
Definition destroy (s : Surface) : Surface :=
  {| role := role s;
     phase := Destroyed;
     latest_issued := latest_issued s;
     outstanding := [];
     cached := cached s;
     positioner := positioner s;
     repositioned := repositioned s |}.

(** Modelled from the spec: the operations of section 4.3 as the requests
    that reach a surface, and the run of a sequence of them: the final
    surface and the configures issued on the way. *)
Inductive request : Type :=
| RequestConfigure (st : SurfaceState)
| AckConfigure (n : N)
| Dismiss
| Destroy
| SetPositioner (p : PositionerState) (geometry : PopupConfigure)
| Reposition (p : PositionerState) (geometry : PopupConfigure).

Definition step (r : request) (s : Surface) : Surface * list Configure :=
  match r with
  | RequestConfigure st =>
      let (c, s') := request_configure st s in (s', [c])
  | AckConfigure n => (snd (ack_configure n s), [])
  | Dismiss => (dismiss s, [])
  | Destroy => (destroy s, [])
  | SetPositioner p geometry => set_positioner p geometry s
  | Reposition p geometry => reposition p geometry s
  end.

Fixpoint run (rs : list request) (s : Surface) : Surface * list Configure :=
  match rs with
  | [] => (s, [])
  | r :: rs' =>
      let (s1, issued1) := step r s in
      let (s2, issued2) := run rs' s1 in
      (s2, issued1 ++ issued2)
  end.


Definition issued (rs : list request) (s : Surface) : list N :=
  map serial (snd (run rs s)).


End Shell.

(** ** The shell state and the delivery of events

    Section 4.4 and 6 of the specification: the directory of the shell
    clients and their surfaces, the requests the transport hands to it, and
    the events it delivers to the handler the user registered.  None of this
    code is part of the sidebar file. *)

Module Dispatch.

Local Open Scope N_scope.

Definition client_id : Type := N.
Definition surface_id : Type := N.

(** Modelled from the spec: [XdgRequest], the events delivered to the
    registered handler, with the six variants of section 6. *)
Inductive XdgRequest : Type :=
| NewClient (client : client_id)
| NewToplevel (surface : surface_id)
| NewPopup (surface : surface_id)
| StateChanged (surface : surface_id) (states : list Shell.ToplevelFlag)
| Reposition (surface : surface_id) (token : N)
| Destroyed (surface : surface_id).

(** Modelled from the spec: the inbound requests of section 6, and the
    start and end of a client's transport session. *)
Inductive inbound : Type :=
| Connect (client : client_id)
| CreateToplevel (client : client_id) (surface : surface_id)
| CreatePopup (client : client_id) (surface parent : surface_id)
    (p : Shell.PositionerState) (geometry : Shell.PopupConfigure)
| SetPositioner (surface : surface_id)
    (p : Shell.PositionerState) (geometry : Shell.PopupConfigure)
| RepositionPopup (surface : surface_id)
    (p : Shell.PositionerState) (geometry : Shell.PopupConfigure) (token : N)
| AckConfigure (surface : surface_id) (serial : N)
| SetToplevelState (surface : surface_id) (states : list Shell.ToplevelFlag)
| Destroy (surface : surface_id)
| Disconnect (client : client_id).

(** Modelled from the spec: [ShellState], the directory of the clients, each
    with the surfaces it owns in creation order, and the machine of every
    live surface. *)
Record ShellState : Type := {
  clients : list (client_id * list surface_id);
  surfaces : list (surface_id * Shell.Surface)
}.

Definition no_clients : ShellState := {| clients := []; surfaces := [] |}.

Fixpoint lookup {A : Type} (k : N) (l : list (N * A)) : option A :=
  match l with
  | [] => None
  | (k', a) :: l' => if k =? k' then Some a else lookup k l'
  end.

Fixpoint update {A : Type} (k : N) (a : A) (l : list (N * A)) : list (N * A) :=
  match l with
  | [] => []
  | (k', a') :: l' =>
      if k =? k' then (k, a) :: l' else (k', a') :: update k a l'
  end.

Definition remove {A : Type} (k : N) (l : list (N * A)) : list (N * A) :=
  filter (fun b => negb (k =? fst b)) l.

Definition flag_eqb (a b : Shell.ToplevelFlag) : bool :=
  match a, b with
  | Shell.Maximized, Shell.Maximized => true
  | Shell.Fullscreen, Shell.Fullscreen => true
  | Shell.Activated, Shell.Activated => true
  | Shell.Resizing, Shell.Resizing => true
  | _, _ => false
  end.

(** Modelled from the spec: [ToplevelStateSet] holds no contradictory
    flags; maximized and fullscreen do not coexist. *)
Definition compatible (states : list Shell.ToplevelFlag) : bool :=
  negb (existsb (flag_eqb Shell.Maximized) states
        && existsb (flag_eqb Shell.Fullscreen) states).

Definition with_surface (surface : surface_id) (s : Shell.Surface)
  (st : ShellState) : ShellState :=
  {| clients := clients st; surfaces := update surface s (surfaces st) |}.

(** A new surface object for a connected client, unless the underlying
    surface has one already. *)
Definition create (client : client_id) (surface : surface_id)
  (s : Shell.Surface) (event : XdgRequest) (st : ShellState)
  : ShellState * list XdgRequest :=
  match lookup client (clients st), lookup surface (surfaces st) with
  | Some owned, None =>
      ({| clients := update client (owned ++ [surface]) (clients st);
          surfaces := surfaces st ++ [(surface, s)] |}, [event])
  | _, _ => (st, [])
  end.

(** Modelled from the spec: what a request does to the shell state, and the
    events it makes the shell deliver.  A request for a surface that is gone
    does nothing; a disconnect destroys the surfaces of the client and
    notifies of each, in creation order. *)
Definition transition (i : inbound) (st : ShellState)
  : ShellState * list XdgRequest :=
  match i with
  | Connect client =>
      match lookup client (clients st) with
      | Some _ => (st, [])
      | None =>
          ({| clients := clients st ++ [(client, [])];
              surfaces := surfaces st |}, [NewClient client])
      end
  | CreateToplevel client surface =>
      create client surface (Shell.new_surface Shell.Toplevel)
             (NewToplevel surface) st
  | CreatePopup client surface parent p geometry =>
      create client surface
             (fst (Shell.set_positioner p geometry
                     (Shell.new_surface (Shell.Popup Shell.Unmapped))))
             (NewPopup surface) st
  | SetPositioner surface p geometry =>
      match lookup surface (surfaces st) with
      | Some s =>
          (with_surface surface (fst (Shell.set_positioner p geometry s)) st, [])
      | None => (st, [])
      end
  | RepositionPopup surface p geometry token =>
      match lookup surface (surfaces st) with
      | Some s =>
          match Shell.reposition p geometry s with
          | (s', _ :: _) => (with_surface surface s' st, [Reposition surface token])
          | (_, []) => (st, [])
          end
      | None => (st, [])
      end
  | AckConfigure surface serial =>
      match lookup surface (surfaces st) with
      | Some s =>
          (with_surface surface (snd (Shell.ack_configure serial s)) st, [])
      | None => (st, [])
      end
  | SetToplevelState surface states =>
      match lookup surface (surfaces st) with
      | Some s =>
          if negb (Shell.is_popup s) && compatible states
          then (st, [StateChanged surface states])
          else (st, [])
      | None => (st, [])
      end
  | Destroy surface =>
      match lookup surface (surfaces st) with
      | Some _ =>
          ({| clients :=
                map (fun c => (fst c, List.filter (fun s => negb (surface =? s)) (snd c)))
                    (clients st);
              surfaces := remove surface (surfaces st) |}, [Destroyed surface])
      | None => (st, [])
      end
  | Disconnect client =>
      match lookup client (clients st) with
      | Some owned =>
          ({| clients := remove client (clients st);
              surfaces := fold_left (fun l s => remove s l) owned (surfaces st) |},
           map Destroyed owned)
      | None => (st, [])
      end
  end.

(** The events a sequence of requests makes the shell deliver, and the shell
    state it leaves. *)
Fixpoint outbound (ins : list inbound) (st : ShellState) : list XdgRequest :=
  match ins with
  | [] => []
  | i :: ins' => snd (transition i st) ++ outbound ins' (fst (transition i st))
  end.

Fixpoint state_after (ins : list inbound) (st : ShellState) : ShellState :=
  match ins with
  | [] => st
  | i :: ins' => state_after ins' (fst (transition i st))
  end.

(** Modelled from the spec: the registered handler is a callback of the
    user, called on each event in turn; [H] is whatever the handler keeps. *)
Section Handler.
Variable H : Type.
Variable handler : XdgRequest -> H -> H.

Definition deliver (events : list XdgRequest) (h : H) : H :=
  fold_left (fun h e => handler e h) events h.

Definition dispatch (i : inbound) (sh : ShellState * H) : ShellState * H :=
  let (st', events) := transition i (fst sh) in
  (st', deliver events (snd sh)).

Definition dispatch_all (ins : list inbound) (sh : ShellState * H)
  : ShellState * H :=
  fold_left (fun sh i => dispatch i sh) ins sh.
End Handler.

End Dispatch.

(** ** Properties of the sidebar file *)

Import Js Sidebar.

Section LiteralEvaluation.
Variable h : host.

Let evaluates (e : expr) : Prop :=
  literal e = true -> forall t, eval h e t = Done (value_of e, t).

Lemma eval_elements_literal (es : list expr) :
  Forall evaluates es -> forallb literal es = true ->
  forall t, eval_elements (eval h) es t = Done (map value_of es, t).
Proof.
  induction 1 as [|e es He _ IH]; intros Hlit t; [reflexivity|].
  simpl in Hlit. apply andb_true_iff in Hlit as [Hl Hls].
  simpl. rewrite (He Hl t). simpl. rewrite (IH Hls t). reflexivity.
Qed.

Lemma eval_properties_literal (ps : list (string * expr)) :
  Forall (fun p => evaluates (snd p)) ps ->
  forallb (fun p => literal (snd p)) ps = true ->
  forall acc t,
    eval_properties (eval h) ps acc t =
    Done (fold_left (fun a p => obj_set (fst p) (value_of (snd p)) a) ps acc, t).
Proof.
  induction 1 as [|p ps Hp _ IH]; intros Hlit acc t; [reflexivity|].
  simpl in Hlit. apply andb_true_iff in Hlit as [Hl Hls].
  simpl. rewrite (Hp Hl t). simpl. apply IH, Hls.
Qed.

(** A literal evaluates to its value, whatever the host, and calls
    nothing. *)
Lemma eval_literal (e : expr) :
  literal e = true -> forall t, eval h e t = Done (value_of e, t).
Proof.
  change (evaluates e).
  induction e as [s|x|elems IH|props IH|callee args _ _] using expr_parts_ind;
    intros Hlit t; try discriminate Hlit.
  - reflexivity.
  - simpl in Hlit |- *.
    rewrite (eval_elements_literal elems IH Hlit t). reflexivity.
  - simpl in Hlit |- *.
    rewrite (eval_properties_literal props IH Hlit [] t). reflexivity.
Qed.

(** A statement that calls a host function on literals adds exactly that
    call to the trace. *)
Lemma run_literal_call (f : string) (args : list expr) (t : trace) :
  h f = true -> forallb literal args = true ->
  run h [ExprStmt (Call (Ident f) args)] t
  = Done (t ++ [(f, map value_of args)]).
Proof.
  intros Hf Hlit. simpl. rewrite Hf.
  rewrite (eval_elements_literal args) with (t := t).
  - reflexivity.
  - apply Forall_forall. intros e _. exact (eval_literal e).
  - exact Hlit.
Qed.
End LiteralEvaluation.

(** The printed program has the length of the file, 1427 bytes. *)
Lemma print_program_length :
  String.length (print_program sidebar_items_js) = 1427.
Proof. vm_compute. reflexivity. Qed.

(** The mapping [sidebar] is the argument of the one call of the file. *)
Lemma sidebar_is_the_argument :
  exists arg : expr,
    sidebar_items_js = [ExprStmt (Call (Ident "initSidebarItems") [arg])] /\
    literal arg = true /\
    as_mapping (value_of arg) = Some sidebar.
Proof. eexists. split; [reflexivity|]. split; vm_compute; reflexivity. Qed.

(** In a list of pairs without repeated keys, a key has one value. *)
Lemma NoDup_fst_functional {A B : Type} (l : list (A * B)) :
  NoDup (map fst l) ->
  forall a b1 b2, In (a, b1) l -> In (a, b2) l -> b1 = b2.
Proof.
  induction l as [|[a0 b0] l IH]; simpl; intros Hnd a b1 b2 H1 H2; [contradiction|].
  inversion Hnd as [|? ? Hnotin Hnd']; subst.
  destruct H1 as [H1|H1], H2 as [H2|H2].
  - congruence.
  - inversion H1; subst. exfalso. apply Hnotin.
    change a with (fst (a, b2)). apply in_map, H2.
  - inversion H2; subst. exfalso. apply Hnotin.
    change a with (fst (a, b1)). apply in_map, H1.
  - eapply IH; eauto.
Qed.

(** [distinct] decides [NoDup]. *)
Lemma distinct_NoDup (l : list string) : distinct l = true -> NoDup l.
Proof.
  induction l as [|x l IH]; simpl; intros H; constructor.
  - apply andb_true_iff in H as [H _]. apply negb_true_iff in H.
    intros Hin. assert (existsb (String.eqb x) l = true) as E.
    { apply existsb_exists. exists x. split; [exact Hin|apply String.eqb_refl]. }
    congruence.
  - apply IH. apply andb_true_iff in H as [_ H]. exact H.
Qed.

(** Membership decided by computation. *)
Lemma mem_In (x : string) (l : list string) :
  existsb (String.eqb x) l = true -> In x l.
Proof.
  intros H. apply existsb_exists in H as (y & Hin & Heq).
  apply String.eqb_eq in Heq. subst y. exact Hin.
Qed.

(** A key of an association list has a first binding, which is in the list. *)
Lemma assoc_In {A : Type} (k : string) (l : list (string * A)) :
  In k (map fst l) -> exists a, assoc k l = Some a /\ In (k, a) l.
Proof.
  induction l as [|[k' a'] l IH]; simpl; intros Hin; [contradiction|].
  destruct (String.eqb_spec k k') as [->|Hne].
  - exists a'. split; [reflexivity|left; reflexivity].
  - destruct Hin as [Heq|Hin]; [congruence|].
    destruct (IH Hin) as (a & Ha & Hin'). exists a. split; [exact Ha|right; exact Hin'].
Qed.

(** *** The claims on the listing *)

(** C1: the constant category holds exactly the four role constants
    XDG_TOPLEVEL_ROLE, ZXDG_TOPLEVEL_ROLE, XDG_POPUP_ROLE and ZXDG_POPUP_ROLE:
    every constant is one of them, all four are present, and they are one
    constant for each pair of a protocol generation (legacy zxdg, current
    xdg) and a role (toplevel, popup). *)
Theorem constant_category_is_the_four_roles :
  (forall name, In name (names "constant") <-> In name role_constants) /\
  length (names "constant") = 4 /\
  NoDup (names "constant") /\
  (forall (g : generation) (k : role_kind),
      exists name,
        In name (names "constant") /\
        generation_of name = Some g /\ role_kind_of name = Some k /\
        forall name',
          In name' (names "constant") ->
          generation_of name' = Some g -> role_kind_of name' = Some k ->
          name' = name).
Proof.
  split; [|split; [reflexivity|split]].
  - intros name. vm_compute. tauto.
  - apply distinct_NoDup. reflexivity.
  - assert (names "constant" =
            ["XDG_POPUP_ROLE"; "XDG_TOPLEVEL_ROLE";
             "ZXDG_POPUP_ROLE"; "ZXDG_TOPLEVEL_ROLE"]) as E by reflexivity.
    rewrite E.
    intros [] [];
      [ exists "ZXDG_TOPLEVEL_ROLE" | exists "ZXDG_POPUP_ROLE"
      | exists "XDG_TOPLEVEL_ROLE" | exists "XDG_POPUP_ROLE" ];
      (split; [simpl; tauto|]); (split; [reflexivity|]); (split; [reflexivity|]);
      intros name' Hin;
      simpl in Hin; destruct Hin as [<-|[<-|[<-|[<-|[]]]]];
      vm_compute; intros Hg Hk; congruence.
Qed.

(** C4: every type of the data model of the specification is the name of a
    symbol of the listing. *)
Theorem data_model_types_are_listed :
  Forall (fun name => In name symbol_names) data_model_types /\
  length data_model_types = 13.
Proof.
  split; [|reflexivity].
  apply Forall_forall. intros name Hin. apply mem_In.
  unfold data_model_types in Hin. simpl in Hin.
  repeat (destruct Hin as [<-|Hin]; [reflexivity|]). contradiction.
Qed.

(** C5: the file is one statement, the call of initSidebarItems on one
    argument; the argument is a static literal, nothing in the file is a
    control construct, and every run of the file by a page that defines
    initSidebarItems performs that one call, on the mapping from the symbol
    names to their one-line descriptions, and nothing else. *)
Theorem file_is_one_call_on_a_literal :
  exists arg : expr,
    sidebar_items_js = [ExprStmt (Call (Ident "initSidebarItems") [arg])] /\
    literal arg = true /\
    existsb control_flow sidebar_items_js = false /\
    as_mapping (value_of arg) = Some sidebar /\
    forallb one_line (map snd symbols) = true /\
    (forall (h : host) (t : trace),
        h "initSidebarItems" = true ->
        run h sidebar_items_js t
        = Done (t ++ [("initSidebarItems", [value_of arg])])) /\
    (forall (h : host) (t : trace),
        h "initSidebarItems" = false ->
        run h sidebar_items_js t = Throw (ReferenceError "initSidebarItems")).
Proof.
  destruct sidebar_is_the_argument as (arg & Hfile & Hlit & Hmap).
  exists arg. rewrite Hfile.
  repeat split; try assumption; try reflexivity.
  - intros h t Hh.
    apply (run_literal_call h "initSidebarItems" [arg] t Hh).
    simpl. rewrite Hlit. reflexivity.
  - intros h t Hh. simpl. rewrite Hh. reflexivity.
Qed.

(** The listing has XdgRequest as an enum, and only as an enum, described as
    the events generated by xdg shell surfaces. *)
Lemma XdgRequest_is_the_enum_of_events :
  In ("XdgRequest", "Events generated by xdg shell surfaces") (category "enum") /\
  kinds "XdgRequest" = ["enum"] /\
  describe "XdgRequest" = Some "Events generated by xdg shell surfaces".
Proof. repeat split; vm_compute; tauto. Qed.

(** C9: no symbol name occurs twice in the listing, across its four
    categories constant, enum, fn and struct, and a name has exactly one
    description. *)
Theorem symbol_names_are_unique :
  categories = ["constant"; "enum"; "fn"; "struct"] /\
  NoDup symbol_names /\
  (forall name, In name symbol_names -> length (kinds name) = 1) /\
  (forall name, In name symbol_names ->
                exists d, describe name = Some d /\
                          forall d', In (name, d') symbols -> d' = d).
Proof.
  assert (NoDup symbol_names) as Hnd by (apply distinct_NoDup; reflexivity).
  split; [reflexivity|]. split; [exact Hnd|]. split.
  - intros name Hin. vm_compute in Hin.
    repeat (destruct Hin as [<-|Hin]; [reflexivity|]). contradiction.
  - intros name Hin.
    destruct (assoc_In name symbols Hin) as (d & Hd & Hind).
    exists d. split; [exact Hd|].
    intros d' Hd'. exact (NoDup_fst_functional symbols Hnd name d' d Hd' Hind).
Qed.

(** C10: the fn category has one entry, xdg_shell_init, described as creating
    a new xdg_shell global; no other symbol of the listing is a function. *)
Theorem xdg_shell_init_is_the_only_function :
  category "fn" = [("xdg_shell_init", "Create a new `xdg_shell` global")] /\
  (forall name, In "fn" (kinds name) <-> name = "xdg_shell_init") /\
  kinds "xdg_shell_init" = ["fn"].
Proof.
  split; [reflexivity|]. split; [|reflexivity].
  intros name. unfold kinds.
  split.
  - intros Hin. apply in_map_iff in Hin as ([c items] & Hc & Hin).
    simpl in Hc. subst c.
    apply filter_In in Hin as [Hin Hex]. simpl in Hex.
    vm_compute in Hin.
    destruct Hin as [Hin|[Hin|[Hin|[Hin|[]]]]]; try discriminate Hin.
    inversion Hin; subst items. simpl in Hex.
    rewrite orb_false_r in Hex. apply String.eqb_eq in Hex. exact Hex.
  - intros ->. vm_compute. tauto.
Qed.

(** ** Properties of the configure/acknowledge machine *)

Section SurfaceMachine.
Import Shell.
Local Open Scope N_scope.


Lemma issued_cons (r : request) (rs : list request) (s : Surface) :
  issued (r :: rs) s = map serial (snd (step r s)) ++ issued rs (fst (step r s)).
Proof.
  unfold issued. simpl. destruct (step r s) as [s1 i1]. simpl.
  destruct (Shell.run rs s1). simpl. apply map_app.
Qed.

(** What an acknowledgement leaves behind: the surface as it was, or the
    surface with a matching outstanding configure acknowledged. *)
Lemma ack_configure_cases (n : N) (s : Surface) :
  snd (ack_configure n s) = s \/
  exists c, In c (outstanding s) /\ serial c = n /\
            ack_configure n s = (Ok, acknowledged c s).
Proof.
  unfold ack_configure.
  destruct (is_dismissed s); [left; reflexivity|].
  destruct (lowest_outstanding s) as [lowest|];
    [|destruct (phase s); left; reflexivity].
  destruct (n <? lowest); [destruct (phase s); left; reflexivity|].
  destruct (find (fun c => serial c =? n) (outstanding s)) as [c|] eqn:Hfind;
    [|destruct (phase s); left; reflexivity].
  destruct (is_popup s && (n <? repositioned s));
    [destruct (phase s); left; reflexivity|].
  apply find_some in Hfind as [Hin Heq]. apply N.eqb_eq in Heq.
  destruct (phase s);
    first [ left; reflexivity
          | right; exists c; split; [exact Hin|split; [exact Heq|reflexivity]] ].
Qed.

(** What [set_positioner] and [reposition] do to the serials: nothing, or
    what [request_configure] does. *)
Lemma set_positioner_cases (p : PositionerState) (g : PopupConfigure)
  (s : Surface) :
  set_positioner p g s = (s, []) \/
  exists s',
    set_positioner p g s = (s', [fst (request_configure (OfPopup g) s)]) /\
    latest_issued s' = latest_issued s + 1 /\
    outstanding s' = outstanding (snd (request_configure (OfPopup g) s)) /\
    phase s' = Configured (latest_issued s + 1) /\
    role s' = role s /\ repositioned s' = repositioned s.
Proof.
  unfold set_positioner. destruct (role s) as [|[]] eqn:Hrole; auto;
    right; eexists; (split; [reflexivity|]); simpl; repeat split; exact Hrole.
Qed.

Lemma reposition_cases (p : PositionerState) (g : PopupConfigure)
  (s : Surface) :
  reposition p g s = (s, []) \/
  exists s',
    reposition p g s = (s', [fst (request_configure (OfPopup g) s)]) /\
    latest_issued s' = latest_issued s + 1 /\
    outstanding s' = outstanding (snd (request_configure (OfPopup g) s)) /\
    phase s' = Configured (latest_issued s + 1) /\
    role s' = role s /\ repositioned s' = latest_issued s + 1.
Proof.
  unfold reposition.
  destruct (set_positioner_cases p g s)
    as [->|(s' & -> & Hl & Ho & Hp & Hr & _)]; [left; reflexivity|].
  right. eexists. repeat split; simpl; assumption.
Qed.

(** A request issues nothing and keeps the latest issued serial, or issues
    one configure, tagged with the successor of the latest issued serial,
    which becomes the latest. *)
Lemma step_shape (r : request) (s : Surface) :
  (snd (step r s) = [] /\ latest_issued (fst (step r s)) = latest_issued s) \/
  (exists c, snd (step r s) = [c] /\
             serial c = latest_issued s + 1 /\
             latest_issued (fst (step r s)) = latest_issued s + 1).
Proof.
  destruct r as [st|n| | |p g|p g]; simpl.
  - right. eexists. repeat split.
  - left. split; [reflexivity|].
    destruct (ack_configure_cases n s) as [->|(c & _ & _ & ->)]; reflexivity.
  - left. split; [reflexivity|]. unfold dismiss. destruct (role s); reflexivity.
  - left. split; reflexivity.
  - destruct (set_positioner_cases p g s) as [->|(s' & -> & Hl & _)];
      [left; split; reflexivity|].
    right. eexists. repeat split. exact Hl.
  - destruct (reposition_cases p g s) as [->|(s' & -> & Hl & _)];
      [left; split; reflexivity|].
    right. eexists. repeat split. exact Hl.
Qed.

(** No request lowers the latest issued serial. *)
Lemma step_latest_issued (r : request) (s : Surface) :
  latest_issued s <= latest_issued (fst (step r s)).
Proof.
  destruct (step_shape r s) as [[_ ->]|(c & _ & _ & ->)]; lia.
Qed.

(** The serial a request issues, if any, is new and becomes the latest. *)
Lemma step_issued (r : request) (s : Surface) :
  Forall (fun n => latest_issued s < n /\ n = latest_issued (fst (step r s)))
         (map serial (snd (step r s))).
Proof.
  destruct (step_shape r s) as [[-> _]|(c & -> & Hc & ->)]; simpl;
    repeat constructor; lia.
Qed.

Lemma issued_above_latest (rs : list request) :
  forall s, Forall (fun n => latest_issued s < n) (issued rs s).
Proof.
  induction rs as [|r rs IH]; intros s; [constructor|].
  rewrite issued_cons. apply Forall_app. split.
  - eapply Forall_impl; [|apply step_issued]. simpl. intros n [H _]. exact H.
  - eapply Forall_impl; [|apply IH]. simpl. intros n H.
    pose proof (step_latest_issued r s). lia.
Qed.

(** A request issues at most one serial. *)
Lemma step_issues_at_most_one (r : request) (s : Surface) :
  map serial (snd (step r s)) = [] \/
  map serial (snd (step r s)) = [latest_issued (fst (step r s))].
Proof.
  destruct (step_shape r s) as [[-> _]|(c & -> & Hc & ->)]; simpl; auto.
  right. rewrite Hc. reflexivity.
Qed.

Lemma issued_sorted (rs : list request) :
  forall s, StronglySorted N.lt (issued rs s).
Proof.
  induction rs as [|r rs IH]; intros s; [constructor|].
  rewrite issued_cons.
  destruct (step_issues_at_most_one r s) as [->| ->]; simpl; [apply IH|].
  constructor; [apply IH|apply issued_above_latest].
Qed.

Lemma StronglySorted_lt_NoDup (l : list N) : StronglySorted N.lt l -> NoDup l.
Proof.
  induction 1 as [|n l _ IH Hall]; constructor; [|exact IH].
  intros Hin. rewrite Forall_forall in Hall. specialize (Hall n Hin). lia.
Qed.

(** A run of [request_configure] calls alone issues the serials that follow
    the latest issued one, in order. *)
Lemma issued_by_requests (sts : list SurfaceState) :
  forall s,
    issued (map RequestConfigure sts) s
    = map (fun i => latest_issued s + N.of_nat i) (seq 1 (length sts)).
Proof.
  induction sts as [|st sts IH]; intros s; [reflexivity|].
  simpl map at 1. rewrite issued_cons. simpl length. simpl seq.
  simpl. f_equal. rewrite IH. simpl.
  rewrite <- (seq_shift (length sts) 1), map_map. apply map_ext. intros i. lia.
Qed.

(** A request that issues nothing keeps the latest issued serial. *)
Lemma step_keeps_latest_issued (r : request) (s : Surface) :
  snd (step r s) = [] -> latest_issued (fst (step r s)) = latest_issued s.
Proof.
  destruct (step_shape r s) as [[_ H]|(c & -> & _)]; [auto|discriminate].
Qed.

(** The first serial a run issues is the successor of the latest issued
    one. *)
Lemma first_issued (rs : list request) :
  forall s n, hd_error (issued rs s) = Some n -> n = latest_issued s + 1.
Proof.
  induction rs as [|r rs IH]; intros s n Hn; [discriminate Hn|].
  rewrite issued_cons in Hn.
  destruct (step_shape r s) as [[Hstep Hl]|(c & Hstep & Hc & _)];
    rewrite Hstep in Hn; simpl in Hn.
  - rewrite (IH _ _ Hn), Hl. reflexivity.
  - inversion Hn. congruence.
Qed.

(** C7: on every surface, in whatever state, the serials issued by a
    sequence of requests are strictly increasing, pairwise distinct and above
    every serial issued before; a sequence of request_configure calls issues
    one serial per call, each the successor of the one before; and the first
    serial a new surface issues is 1. *)
Theorem issued_serials_strictly_increase
  (s : Surface) (rs : list request) (sts : list SurfaceState) (r : Role) :
  (StronglySorted N.lt (issued rs s) /\
   NoDup (issued rs s) /\
   Forall (fun n => latest_issued s < n) (issued rs s)) /\
  issued (map RequestConfigure sts) s
  = map (fun i => latest_issued s + N.of_nat i) (seq 1 (length sts)) /\
  (forall st, serial (fst (request_configure st (new_surface r))) = 1) /\
  (forall n, hd_error (issued rs (new_surface r)) = Some n -> n = 1).
Proof.
  split; [|split; [|split]].
  - pose proof (issued_sorted rs s) as Hsorted.
    split; [exact Hsorted|].
    split; [apply StronglySorted_lt_NoDup, Hsorted|apply issued_above_latest].
  - apply issued_by_requests.
  - reflexivity.
  - intros n Hn. apply first_issued in Hn. exact Hn.
Qed.

(** *** Acknowledgement *)

(** The minimum of a list, computed by folding, is one of its elements and
    is below all of them. *)
Lemma fold_min_In (ns : list N) :
  forall n, In (fold_left N.min ns n) (n :: ns).
Proof.
  induction ns as [|m ns IH]; intros n; simpl; [left; reflexivity|].
  destruct (IH (N.min n m)) as [H|H]; [|right; right; exact H].
  rewrite <- H. destruct (N.min_spec n m) as [[_ ->]|[_ ->]]; auto.
Qed.



(** The lowest outstanding serial is an outstanding serial. *)
Lemma lowest_outstanding_In (s : Surface) (lowest : N) :
  lowest_outstanding s = Some lowest -> In lowest (serials s).
Proof.
  unfold lowest_outstanding. destruct (serials s) as [|n ns]; [discriminate|].
  intros H. inversion H. apply fold_min_In.
Qed.



















End SurfaceMachine.

(** ** Properties of the delivery of events *)

Section Delivery.
Import Dispatch.
Local Open Scope N_scope.

Lemma deliver_app {H : Type} (handler : XdgRequest -> H -> H)
  (events1 events2 : list XdgRequest) (h : H) :
  deliver H handler (events1 ++ events2) h
  = deliver H handler events2 (deliver H handler events1 h).
Proof. unfold deliver. apply fold_left_app. Qed.

(** Dispatching a sequence of requests leaves the shell state of the
    sequence and has called the handler on the events of the sequence, in
    order. *)
Lemma dispatch_all_delivers {H : Type} (handler : XdgRequest -> H -> H)
  (ins : list inbound) :
  forall st h,
    dispatch_all H handler ins (st, h)
    = (state_after ins st, deliver H handler (outbound ins st) h).
Proof.
  induction ins as [|i ins IH]; intros st h; [reflexivity|].
  change (dispatch_all H handler (i :: ins) (st, h))
    with (dispatch_all H handler ins (dispatch H handler i (st, h))).
  unfold dispatch. cbn [fst snd outbound state_after].
  destruct (transition i st) as [st' events]. cbn [fst snd].
  rewrite IH, deliver_app. reflexivity.
Qed.

(** A handler that records what it is called on. *)
Lemma deliver_record (events : list XdgRequest) :
  forall log, deliver (list XdgRequest) (fun e log => log ++ [e]) events log
              = log ++ events.
Proof.
  induction events as [|e events IH]; intros log; simpl.
  - rewrite app_nil_r. reflexivity.
  - unfold deliver in *. simpl. rewrite IH, <- app_assoc. reflexivity.
Qed.

(** C6: the events a sequence of inbound requests makes the shell emit are
    delivered to the registered handler, each as a variant of XdgRequest and
    in the order they arise: the handler is called on exactly these events,
    whatever it does with them; a session that connects a client, creates a
    toplevel and a popup, changes the toplevel's state, repositions the
    popup, destroys the toplevel and disconnects delivers the six variants
    NewClient, NewToplevel, NewPopup, StateChanged, Reposition and Destroyed;
    a disconnect delivers Destroyed for each surface of the client in
    creation order; and the listing has XdgRequest as the enum of the events
    generated by xdg shell surfaces. *)
Theorem XdgRequest_events_are_delivered_to_the_handler
  (H : Type) (handler : XdgRequest -> H -> H)
  (ins : list inbound) (st : ShellState) (h : H) :
  dispatch_all H handler ins (st, h)
  = (state_after ins st, fold_left (fun h e => handler e h) (outbound ins st) h) /\
  snd (dispatch_all (list XdgRequest) (fun e log => log ++ [e]) ins (st, []))
  = outbound ins st /\
  (forall p geometry,
      outbound [Connect 1; CreateToplevel 1 10; CreatePopup 1 11 10 p geometry;
                SetToplevelState 10 [Shell.Maximized];
                RepositionPopup 11 p geometry 7; Destroy 10; Disconnect 1]
               no_clients
      = [NewClient 1; NewToplevel 10; NewPopup 11;
         StateChanged 10 [Shell.Maximized]; Reposition 11 7;
         Destroyed 10; Destroyed 11]) /\
  (forall client owned,
      lookup client (clients st) = Some owned ->
      outbound [Disconnect client] st = map Destroyed owned) /\
  In ("XdgRequest", "Events generated by xdg shell surfaces") (category "enum") /\
  kinds "XdgRequest" = ["enum"].
Proof.
  split; [|split; [|split; [|split; [|split]]]].
  - apply dispatch_all_delivers.
  - rewrite dispatch_all_delivers. simpl. apply deliver_record.
  - reflexivity.
  - intros client owned Hc. simpl. rewrite Hc. simpl. apply app_nil_r.
  - vm_compute. tauto.
  - reflexivity.
Qed.

End Delivery.

(** ** Further properties of the sidebar file *)

Section Rendering.







(** With a category written twice the later one replaces the earlier, and
    the rendering no longer decodes to the mapping. *)
Lemma render_repeated_category :
  as_mapping (value_of (encode [("fn", [("f", "d")]); ("fn", [])]))
  = Some [("fn", [])].
Proof. reflexivity. Qed.

End Rendering.

Section Listing.

(** A category is one of the four of the file, or has no items. *)
Lemma category_cases (c : string) :
  c = "constant" \/ c = "enum" \/ c = "fn" \/ c = "struct" \/ category c = [].
Proof.
  destruct (String.eqb_spec c "constant") as [->|H1]; [tauto|].
  destruct (String.eqb_spec c "enum") as [->|H2]; [tauto|].
  destruct (String.eqb_spec c "fn") as [->|H3]; [tauto|].
  destruct (String.eqb_spec c "struct") as [->|H4]; [tauto|].
  do 4 right. unfold category, sidebar. cbn [assoc].
  apply String.eqb_neq in H1, H2, H3, H4. rewrite H1, H2, H3, H4. reflexivity.
Qed.

(** X1: the categories of the file, and the names inside every category,
    are listed in strictly ascending order of their characters. *)
Theorem names_are_in_ascending_order :
  StronglySorted before categories /\
  forall c, StronglySorted before (names c).
Proof.
  split; [repeat constructor|].
  intros c. unfold names.
  destruct (category_cases c) as [-> | [-> | [-> | [-> | ->]]]];
    [| | | |constructor]; repeat constructor.
Qed.

(** X2: looking a symbol up by its name alone recovers the item: a name
    listed with a description in a category is described by that description
    and belongs to that category only. *)
Theorem lookup_by_name_recovers_the_item (c name d : string) :
  In (name, d) (category c) ->
  describe name = Some d /\ kinds name = [c] /\ In name symbol_names.
Proof.
  intros Hin.
  destruct (category_cases c) as [->|[->|[->|[->|E]]]];
    [| | | |rewrite E in Hin; contradiction];
    vm_compute in Hin;
    repeat (destruct Hin as [Hin|Hin];
            [inversion Hin; subst name d;
             split; [reflexivity|split; [reflexivity|apply mem_In; reflexivity]]|]);
    contradiction.
Qed.

(** The enum PopupConfigureError, looked up by name. *)
Lemma lookup_by_name_recovers_the_item_witness :
  describe "PopupConfigureError"
  = Some "Represents the possible errors that can be returned from [`PopupSurface::send_configure`]" /\
  kinds "PopupConfigureError" = ["enum"].
Proof.
  assert (In ("PopupConfigureError",
              "Represents the possible errors that can be returned from [`PopupSurface::send_configure`]")
             (category "enum")) as Hin by (vm_compute; tauto).
  pose proof (lookup_by_name_recovers_the_item _ _ _ Hin) as (Hd & Hk & _).
  split; [exact Hd|exact Hk].
Defined.

(** X4: every category and every symbol name is an identifier (letters,
    digits and underscores, not starting with a digit), and every description
    is a non-empty text of printable ASCII characters without double quote or
    backslash: no string of the file needs an escape sequence. *)
Theorem strings_need_no_escape :
  forallb identifier categories = true /\
  forallb identifier symbol_names = true /\
  forallb verbatim (map snd symbols) = true /\
  (forall s, identifier s = true -> verbatim s = true).
Proof.
  split; [reflexivity|]. split; [reflexivity|]. split; [reflexivity|].
  intros s Hs. unfold verbatim. destruct s as [|c s]; [discriminate Hs|].
  apply andb_true_iff. split; [reflexivity|].
  unfold identifier in Hs. apply andb_true_iff in Hs as [_ Hs].
  revert Hs. generalize (String c s). clear c s.
  induction s as [|c s IH]; simpl; intros Hs; [reflexivity|].
  apply andb_true_iff in Hs as [Hc Hs]. rewrite (IH Hs), andb_true_r.
  unfold identifier_char, is_digit, verbatim_char, code_between in *.
  repeat rewrite orb_true_iff in Hc. repeat rewrite andb_true_iff in Hc.
  repeat rewrite Nat.leb_le in Hc. rewrite Nat.eqb_eq in Hc.
  repeat rewrite andb_true_iff. repeat rewrite negb_true_iff.
  repeat rewrite Nat.leb_le. repeat rewrite Nat.eqb_neq. lia.
Qed.

(** X5: the description of a role constant is determined by its name: it is
    the role description of the generation and of the role the name
    carries. *)
Theorem role_constants_are_described_by_their_names (name d : string) :
  In (name, d) (category "constant") ->
  exists g k,
    generation_of name = Some g /\ role_kind_of name = Some k /\
    d = role_description g k.
Proof.
  intros Hin. vm_compute in Hin.
  destruct Hin as [Hin|[Hin|[Hin|[Hin|[]]]]]; inversion Hin; subst name d;
    [ exists Current, PopupRole | exists Current, ToplevelRole
    | exists Legacy, PopupRole | exists Legacy, ToplevelRole ];
    repeat split; reflexivity.
Qed.

(** The legacy toplevel role. *)
Lemma role_constants_are_described_by_their_names_witness :
  exists g k,
    generation_of "ZXDG_TOPLEVEL_ROLE" = Some g /\
    role_kind_of "ZXDG_TOPLEVEL_ROLE" = Some k /\
    "The role of an ZXDG toplevel surface." = role_description g k.
Proof.
  apply (role_constants_are_described_by_their_names
           "ZXDG_TOPLEVEL_ROLE" "The role of an ZXDG toplevel surface.").
  vm_compute. tauto.
Defined.

End Listing.
